(** * Fan controller dashboard: telemetry buffer and threshold controller

    A shallow embedding of the state logic of [src/App.js]: the seven
    [useState] cells of the [App] component, the two push handlers, the three
    asynchronous functions [fetchData], [fetchConfig] and [updateThreshold]
    (each split at its [await] into the part that runs on the call and the
    part that resumes on the response), the slider (the range control and
    its handler) and the Apply button, and the [setTimeout] callbacks that
    put the status back to idle.

    Numbers that the code only stores and copies (temperatures, thresholds)
    are rationals; timestamps are integer epoch milliseconds; the clock of the
    event loop is an integer number of milliseconds. *)

From Stdlib Require Import ZArith QArith Qround Lqa List Sorted String Bool Lia.
Import ListNotations.

Local Open Scope string_scope.
Local Open Scope list_scope.
Local Open Scope Z_scope.

(** ** Values *)

(** A JavaScript [Date]: a time value in milliseconds, or the invalid date
    that [new Date(t)] gives when [t] is outside the representable range. *)
Inductive Date : Type :=
| ValidDate (ms : Z)
| InvalidDate.

Definition maxTime : Z := 8640000000000000.

Definition new_Date (t : Z) : Date :=
  if Z.abs t <=? maxTime then ValidDate t else InvalidDate.

(** A record as the server sends it, in the bulk response and in a
    [data_update] push. *)
Module Item.
Record t : Type := mk { timestamp : Z; temperature : Q; fanSpeed : Z }.
End Item.

(** A chart point: the object literal built from an item at both places
    that fill [data]. *)
Module Point.
Record t : Type := mk { timestamp : Date; temperature : Q; fanSpeed : Z }.
End Point.

Module Config.
Record t : Type := mk { threshold : Q }.
End Config.

Definition toPoint (item : Item.t) : Point.t :=
  Point.mk (new_Date (Item.timestamp item))
           (Item.temperature item)
           (Item.fanSpeed item).

Inductive Status : Type := idle | updating | success | error.

Definition Status_eqb (a b : Status) : bool :=
  match a, b with
  | idle, idle | updating, updating | success, success | error, error => true
  | _, _ => false
  end.

(** What a [fetch] followed by [response.json()] can come to: the promise is
    rejected (no connection), or a response arrives with its [ok] flag and a
    body that parses ([Some]) or does not ([None]). *)
Inductive Response (A : Type) : Type :=
| Rejected
| Replied (ok : bool) (json : option A).

Arguments Rejected {A}.
Arguments Replied {A} ok json.

(** ** State *)

(** The [useState] cells of [App]. *)
Record AppState : Type := mkApp {
  data : list Point.t;
  currentTemp : Q;
  currentFanSpeed : Z;
  threshold : Q;
  tempThreshold : Q;
  lastUpdate : option Date;
  status : Status
}.

Definition App_initial : AppState :=
  mkApp [] (0 # 1) 0 (30 # 1) (30 # 1) None idle.

(** The component together with what surrounds it: the clock, the due times
    of the scheduled [setTimeout] callbacks (all of them are
    [() => setStatus('idle')]), the requests in flight, the bodies of the
    POSTs sent so far and the lines written by [console.error]. *)
Record World : Type := mkWorld {
  app : AppState;
  now : Z;
  timers : list Z;
  dataReqs : nat;
  configReqs : nat;
  writeReqs : nat;
  posted : list Q;
  console : list string
}.

Definition Action : Type := World -> World.

Definition skip : Action := fun w => w.

Definition andThen (f g : Action) : Action := fun w => g (f w).

Declare Scope action_scope.
Delimit Scope action_scope with act.
Bind Scope action_scope with Action.
Notation "f ;; g" := (andThen f g)
  (at level 61, right associativity) : action_scope.
Local Open Scope action_scope.

Definition onApp (f : AppState -> AppState) : Action := fun w =>
  mkWorld (f (app w)) (now w) (timers w) (dataReqs w) (configReqs w)
          (writeReqs w) (posted w) (console w).

(** *** The state setters *)

Definition setData (f : list Point.t -> list Point.t) : Action :=
  onApp (fun s => mkApp (f (data s)) (currentTemp s) (currentFanSpeed s)
                        (threshold s) (tempThreshold s) (lastUpdate s) (status s)).

Definition setCurrentTemp (v : Q) : Action :=
  onApp (fun s => mkApp (data s) v (currentFanSpeed s)
                        (threshold s) (tempThreshold s) (lastUpdate s) (status s)).

Definition setCurrentFanSpeed (v : Z) : Action :=
  onApp (fun s => mkApp (data s) (currentTemp s) v
                        (threshold s) (tempThreshold s) (lastUpdate s) (status s)).

Definition setThreshold (v : Q) : Action :=
  onApp (fun s => mkApp (data s) (currentTemp s) (currentFanSpeed s)
                        v (tempThreshold s) (lastUpdate s) (status s)).

Definition setTempThreshold (v : Q) : Action :=
  onApp (fun s => mkApp (data s) (currentTemp s) (currentFanSpeed s)
                        (threshold s) v (lastUpdate s) (status s)).

Definition setLastUpdate (v : option Date) : Action :=
  onApp (fun s => mkApp (data s) (currentTemp s) (currentFanSpeed s)
                        (threshold s) (tempThreshold s) v (status s)).

Definition setStatus (v : Status) : Action :=
  onApp (fun s => mkApp (data s) (currentTemp s) (currentFanSpeed s)
                        (threshold s) (tempThreshold s) (lastUpdate s) v).

(** *** The effects outside the component *)

Definition console_error (msg : string) : Action := fun w =>
  mkWorld (app w) (now w) (timers w) (dataReqs w) (configReqs w)
          (writeReqs w) (posted w) (console w ++ [msg]).

(** [setTimeout(() => setStatus('idle'), delay)] *)
Definition setTimeout_idle (delay : Z) : Action := fun w =>
  mkWorld (app w) (now w) (timers w ++ [now w + delay]) (dataReqs w)
          (configReqs w) (writeReqs w) (posted w) (console w).

Definition get_data : Action := fun w =>
  mkWorld (app w) (now w) (timers w) (S (dataReqs w)) (configReqs w)
          (writeReqs w) (posted w) (console w).

Definition get_config : Action := fun w =>
  mkWorld (app w) (now w) (timers w) (dataReqs w) (S (configReqs w))
          (writeReqs w) (posted w) (console w).

(** The POST of [updateThreshold]; its body is the [tempThreshold] of the
    render in which the button was clicked. *)
Definition post_config : Action := fun w =>
  mkWorld (app w) (now w) (timers w) (dataReqs w) (configReqs w)
          (S (writeReqs w)) (posted w ++ [tempThreshold (app w)]) (console w).

(** ** The handlers *)

Definition capacity : nat := 50.

(** [socket.on('data_update', ...)] *)
Definition on_data_update (newData : Item.t) : Action :=
  setCurrentTemp (Item.temperature newData) ;;
  setCurrentFanSpeed (Item.fanSpeed newData) ;;
  setLastUpdate (Some (new_Date (Item.timestamp newData))) ;;
  setData (fun prevData => firstn capacity (toPoint newData :: prevData)).

(** [socket.on('config_update', ...)] *)
Definition on_config_update (newConfig : Config.t) : Action :=
  setThreshold (Config.threshold newConfig) ;;
  setTempThreshold (Config.threshold newConfig).

(** [fetchData], up to its [await]. *)
Definition fetchData : Action := get_data.

(** [fetchData], from the response on. *)
Definition fetchData_resume (r : Response (list Item.t)) : Action :=
  match r with
  | Replied true (Some jsonData) =>
      let chartData := rev (map toPoint jsonData) in
      setData (fun _ => chartData) ;;
      if (0 <? List.length chartData)%nat then
        match nth_error chartData (List.length chartData - 1) with
        | Some latest =>
            setCurrentTemp (Point.temperature latest) ;;
            setCurrentFanSpeed (Point.fanSpeed latest) ;;
            setLastUpdate (Some (Point.timestamp latest))
        | None => console_error "Error fetching data:"
        end
      else skip
  | Replied true None => console_error "Error fetching data:"
  | Replied false _ => skip
  | Rejected => console_error "Error fetching data:"
  end.

Definition fetchConfig : Action := get_config.

Definition fetchConfig_resume (r : Response Config.t) : Action :=
  match r with
  | Replied true (Some config) =>
      setThreshold (Config.threshold config) ;;
      setTempThreshold (Config.threshold config)
  | Replied true None => console_error "Error fetching config:"
  | Replied false _ => skip
  | Rejected => console_error "Error fetching config:"
  end.

Definition updateThreshold : Action :=
  setStatus updating ;; post_config.

Definition updateThreshold_resume (r : Response Config.t) : Action :=
  match r with
  | Replied true (Some config) =>
      setThreshold (Config.threshold config) ;;
      setStatus success ;;
      setTimeout_idle 3000
  | Replied true None =>
      console_error "Error updating threshold:" ;;
      setStatus error ;;
      setTimeout_idle 3000
  | Replied false _ =>
      setStatus error ;;
      setTimeout_idle 3000
  | Rejected =>
      console_error "Error updating threshold:" ;;
      setStatus error ;;
      setTimeout_idle 3000
  end.

Definition handleRefresh : Action := fetchData ;; fetchConfig.

(** The slider: [<input type="range" min="20" max="40" onChange=...>]. The
    event carries the number that [Number(e.target.value)] gives. *)
Definition slider_min : Q := 20 # 1.
Definition slider_max : Q := 40 # 1.

Definition slider_onChange (value : Q) : Action := setTempThreshold value.

(** The Apply button: [onClick={updateThreshold}] and
    [disabled={status === 'updating'}]; a disabled button delivers no click. *)
Definition Apply_disabled (w : World) : bool :=
  Status_eqb (status (app w)) updating.

Definition Apply_onClick : Action := fun w =>
  if Apply_disabled w then w else updateThreshold w.

(** ** The event loop *)

Definition is_due (t : Z) (due : Z) : bool := due <=? t.

(** Run the callbacks whose time has come, in the order they were scheduled,
    and drop them from the list. *)
Definition runTimers : Action := fun w =>
  let fired := filter (is_due (now w)) (timers w) in
  let kept := filter (fun d => negb (is_due (now w) d)) (timers w) in
  fold_left (fun w' _ => setStatus idle w') fired
    (mkWorld (app w) (now w) kept (dataReqs w) (configReqs w)
             (writeReqs w) (posted w) (console w)).

Definition elapse (dt : Z) : Action := fun w =>
  runTimers (mkWorld (app w) (now w + dt) (timers w) (dataReqs w)
                     (configReqs w) (writeReqs w) (posted w) (console w)).

Inductive Event : Type :=
| Click_Apply
| Click_Refresh
| Slide (value : Q)
| Push_data (newData : Item.t)
| Push_config (newConfig : Config.t)
| Data_response (r : Response (list Item.t))
| Config_response (r : Response Config.t)
| Write_response (r : Response Config.t)
| Elapse (dt : Z).

Definition data_answered : Action := fun w =>
  mkWorld (app w) (now w) (timers w) (pred (dataReqs w)) (configReqs w)
          (writeReqs w) (posted w) (console w).

Definition config_answered : Action := fun w =>
  mkWorld (app w) (now w) (timers w) (dataReqs w) (pred (configReqs w))
          (writeReqs w) (posted w) (console w).

Definition write_answered : Action := fun w =>
  mkWorld (app w) (now w) (timers w) (dataReqs w) (configReqs w)
          (pred (writeReqs w)) (posted w) (console w).

(** One task of the event loop. [None]: the event cannot happen in this
    world (a response without a request, time running backwards). *)
Definition step (e : Event) (w : World) : option World :=
  match e with
  | Click_Apply => Some (Apply_onClick w)
  | Click_Refresh => Some (handleRefresh w)
  | Slide v => Some (slider_onChange v w)
  | Push_data d => Some (on_data_update d w)
  | Push_config c => Some (on_config_update c w)
  | Data_response r =>
      match dataReqs w with
      | O => None
      | S _ => Some ((data_answered ;; fetchData_resume r) w)
      end
  | Config_response r =>
      match configReqs w with
      | O => None
      | S _ => Some ((config_answered ;; fetchConfig_resume r) w)
      end
  | Write_response r =>
      match writeReqs w with
      | O => None
      | S _ => Some ((write_answered ;; updateThreshold_resume r) w)
      end
  | Elapse dt => if 0 <=? dt then Some (elapse dt w) else None
  end.

Fixpoint run (es : list Event) (w : World) : option World :=
  match es with
  | [] => Some w
  | e :: es' =>
      match step e w with
      | Some w' => run es' w'
      | None => None
      end
  end.

(** The world right after the mount effect: both initial fetches are in
    flight and the two push handlers are subscribed. *)
Definition World_mounted : World :=
  handleRefresh (mkWorld App_initial 0 [] 0 0 0 [] []).

(** The series handed to the chart ([<LineChart data={data}>]). *)
Definition snapshot (w : World) : list Point.t := data (app w).

(** ** Vocabulary of the properties *)

(** A response that is not a success with a readable body. *)
Definition failed {A : Type} (r : Response A) : bool :=
  match r with
  | Replied true (Some _) => false
  | _ => true
  end.

(** What a failed request leaves on the console: a line from the [catch]
    block, and nothing when the response merely has a status that is not ok. *)
Definition failure_log {A : Type} (msg : string) (r : Response A) : list string :=
  match r with
  | Replied false _ => []
  | _ => [msg]
  end.

Definition Date_le (a b : Date) : Prop :=
  match a, b with
  | ValidDate x, ValidDate y => x <= y
  | _, _ => False
  end.

Definition chrono (p q : Point.t) : Prop :=
  Date_le (Point.timestamp p) (Point.timestamp q).

(** Oldest first. *)
Definition chronological (l : list Point.t) : Prop := Sorted chrono l.

Definition newer_or_same (a b : Item.t) : Prop :=
  Item.timestamp b <= Item.timestamp a.

(** Newest first, as the bulk endpoint is documented to answer. *)
Definition newest_first (l : list Item.t) : Prop := Sorted newer_or_same l.

Definition representable (i : Item.t) : Prop :=
  Z.abs (Item.timestamp i) <= maxTime.

(** The current-value cells, as one triple. *)
Definition CurrentState (w : World) : Q * Z * option Date :=
  (currentTemp (app w), currentFanSpeed (app w), lastUpdate (app w)).

Definition payload (d : Item.t) : Q * Z * option Date :=
  (Item.temperature d, Item.fanSpeed d, Some (new_Date (Item.timestamp d))).

(** The threshold cells. *)
Definition applied (w : World) : Q := threshold (app w).
Definition pending (w : World) : Q := tempThreshold (app w).


(** The dashboard 2000 ms after mounting, when a first update has been
    confirmed at 100 ms: the status is success and the return to idle is
    scheduled for 3100 ms. *)
Definition World_after_success : World :=
  mkWorld (mkApp [] (0 # 1) 0 (30 # 1) (30 # 1) None success)
          2000 [3100] 1 1 0 [30 # 1] [].

(** [getTempStatusClass]: the colour of the temperature card, from the
    current temperature and the applied threshold. *)
Definition getTempStatusClass (s : AppState) : string :=
  if Qle_bool (40 # 1) (currentTemp s) then "text-red-500"
  else if Qle_bool (threshold s) (currentTemp s) then "text-yellow-500"
  else "text-green-500".

(** The button shows the outcome of an update. *)
Definition showing_result (w : World) : Prop :=
  status (app w) = success \/ status (app w) = error.

(** Every pending return to idle is due within the next 3000 ms, and one is
    pending whenever an outcome is shown. *)
Definition timers_live (w : World) : Prop :=
  Forall (fun t => now w < t <= now w + 3000) (timers w) /\
  (showing_result w -> timers w <> []).

(** A status of updating is backed by a request in flight. *)
Definition updating_has_request (w : World) : Prop :=
  status (app w) = updating -> (0 < writeReqs w)%nat.

(** The range control in front of the slider's handler. What the control
    holds, and hands to [onChange] as [e.target.value], is the value it was
    given after the control's own sanitization for [type="range"] with
    [min="20"], [max="40"] and no [step] (so a step of 1 counted from the
    minimum): something that is not a number becomes the middle of the track,
    a number at or under the minimum becomes the minimum, one at or over the
    maximum becomes the maximum, and one in between becomes the nearest whole
    number, a tie going up. *)
Definition range_value (raw : option Q) : Q :=
  let v := match raw with
           | Some v => v
           | None => (slider_min + (slider_max - slider_min) / (2 # 1))%Q
           end in
  if Qle_bool v slider_min then slider_min
  else if Qle_bool slider_max v then slider_max
  else inject_Z (Qfloor (v + (1 # 2))%Q).


(** The Apply button as rendered: the class chosen by the nested
    conditional and the children, where [cond && 'text'] renders the text
    when the condition holds and nothing otherwise. *)
Definition Apply_className (st : Status) : string :=
  String.append "w-full py-2 px-4 rounded-md font-medium "
    (if Status_eqb st updating
     then "bg-gray-300 text-gray-500 cursor-not-allowed"
     else if Status_eqb st success then "bg-green-500 text-white"
     else if Status_eqb st error then "bg-red-500 text-white"
     else "bg-blue-500 text-white hover:bg-blue-600").

Definition rendered (cond : bool) (text : string) : list string :=
  if cond then [text] else [].

Definition Apply_children (st : Status) : list string :=
  rendered (Status_eqb st updating) "Updating..." ++
  rendered (Status_eqb st success) "Updated!" ++
  rendered (Status_eqb st error) "Failed!" ++
  rendered (Status_eqb st idle) "Apply".

(** ** Basic facts *)

Lemma run_app (es1 es2 : list Event) (w : World) :
  run (es1 ++ es2) w =
  match run es1 w with Some w' => run es2 w' | None => None end.
Proof.
  revert w; induction es1 as [|e es1 IH]; intro w; simpl.
  - reflexivity.
  - destruct (step e w) as [w'|]; [apply IH | reflexivity].
Qed.

Lemma run_pushes (ds : list Item.t) (w : World) :
  run (map Push_data ds) w =
  Some (fold_left (fun w' d => on_data_update d w') ds w).
Proof.
  revert w; induction ds as [|d ds IH]; intro w; simpl.
  - reflexivity.
  - apply IH.
Qed.

Lemma snapshot_push (d : Item.t) (w : World) :
  snapshot (on_data_update d w) = firstn capacity (toPoint d :: snapshot w).
Proof. reflexivity. Qed.

Lemma CurrentState_push (d : Item.t) (w : World) :
  CurrentState (on_data_update d w) = payload d.
Proof. reflexivity. Qed.

Lemma snapshot_push_bounded (d : Item.t) (w : World) :
  (List.length (snapshot (on_data_update d w)) <= capacity)%nat.
Proof. rewrite snapshot_push; apply firstn_le_length. Qed.

Lemma snapshot_pushes_bounded (ds : list Item.t) (w : World) :
  (List.length (snapshot w) <= capacity)%nat ->
  (List.length (snapshot (fold_left (fun w' d => on_data_update d w') ds w))
   <= capacity)%nat.
Proof.
  revert w; induction ds as [|d ds IH]; intros w Hw; simpl.
  - exact Hw.
  - apply IH, snapshot_push_bounded.
Qed.

Lemma nth_error_snoc_last {A : Type} (l : list A) (x : A) :
  nth_error (l ++ [x]) (List.length (l ++ [x]) - 1) = Some x.
Proof.
  rewrite length_app; simpl.
  rewrite nth_error_app2 by lia.
  replace (List.length l + 1 - 1 - List.length l)%nat with O by lia.
  reflexivity.
Qed.

Lemma fetchData_resume_cons (newest : Item.t) (rest : list Item.t) (w : World) :
  fetchData_resume (Replied true (Some (newest :: rest))) w =
  (setData (fun _ => rev (map toPoint rest) ++ [toPoint newest]) ;;
   setCurrentTemp (Item.temperature newest) ;;
   setCurrentFanSpeed (Item.fanSpeed newest) ;;
   setLastUpdate (Some (new_Date (Item.timestamp newest)))) w.
Proof.
  unfold fetchData_resume.
  change (rev (map toPoint (newest :: rest)))
    with (rev (map toPoint rest) ++ [toPoint newest]).
  cbv zeta.
  rewrite nth_error_snoc_last.
  replace (0 <? List.length (rev (map toPoint rest) ++ [toPoint newest]))%nat
    with true.
  - reflexivity.
  - symmetry; apply Nat.ltb_lt; rewrite length_app; simpl; lia.
Qed.

Lemma fetchData_resume_snapshot (jsonData : list Item.t) (w : World) :
  snapshot (fetchData_resume (Replied true (Some jsonData)) w) =
  rev (map toPoint jsonData).
Proof.
  destruct jsonData as [|newest rest].
  - reflexivity.
  - rewrite fetchData_resume_cons; reflexivity.
Qed.

(** ** The series buffer under pushes *)

(** C2. Starting from a buffer of at most 50 points, after any sequence of
    [data_update] pushes the buffer has at most 50 points, and after at least
    one push its first entry is the point of the last push, which is also what
    the current-value cells show. *)
Theorem insertOne_bounded_newest_first (w : World) (ds : list Item.t) :
  (List.length (snapshot w) <= capacity)%nat ->
  exists w',
    run (map Push_data ds) w = Some w' /\
    (List.length (snapshot w') <= 50)%nat /\
    forall d : Item.t,
    exists w'',
      run (map Push_data (ds ++ [d])) w = Some w'' /\
      (List.length (snapshot w'') <= 50)%nat /\
      hd_error (snapshot w'') = Some (toPoint d) /\
      CurrentState w'' = payload d.
Proof.
  intro Hw.
  eexists; split; [apply run_pushes|].
  split; [apply snapshot_pushes_bounded, Hw|].
  intro d; eexists; split; [apply run_pushes|].
  rewrite fold_left_app; simpl.
  split; [apply (snapshot_push_bounded d)|].
  split; reflexivity.
Qed.

Lemma insertOne_bounded_newest_first_witness :
  (List.length (snapshot World_mounted) <= capacity)%nat /\
  exists w',
    run (map Push_data [Item.mk 100 (25 # 1) 0; Item.mk 50 (22 # 1) 40])
        World_mounted = Some w' /\
    (List.length (snapshot w') <= 50)%nat /\
    forall d : Item.t,
    exists w'',
      run (map Push_data ([Item.mk 100 (25 # 1) 0; Item.mk 50 (22 # 1) 40] ++ [d]))
          World_mounted = Some w'' /\
      (List.length (snapshot w'') <= 50)%nat /\
      hd_error (snapshot w'') = Some (toPoint d) /\
      CurrentState w'' = payload d.
Proof.
  split.
  - simpl; lia.
  - apply (insertOne_bounded_newest_first World_mounted
             [Item.mk 100 (25 # 1) 0; Item.mk 50 (22 # 1) 40]).
    simpl; lia.
Defined.

(** C10. A [data_update] push overwrites the current temperature, fan speed
    and last-update time with its payload whatever was stored before; after
    any sequence of pushes the three cells hold the payload of the last one.
    Nothing compares the incoming timestamp with the stored one: a push
    dated 50 after a push dated 100 leaves 50 as the last update. *)
Theorem data_update_overwrites_CurrentState (w : World) (ds : list Item.t) (d : Item.t) :
  CurrentState (on_data_update d w) = payload d /\
  (exists w',
     run (map Push_data (ds ++ [d])) w = Some w' /\ CurrentState w' = payload d) /\
  (exists w',
     run [Push_data (Item.mk 100 (25 # 1) 0); Push_data (Item.mk 50 (22 # 1) 40)] w
       = Some w' /\
     CurrentState w' = (22 # 1, 40, Some (ValidDate 50))).
Proof.
  split; [reflexivity|].
  split.
  - eexists; split; [apply run_pushes|].
    rewrite fold_left_app; reflexivity.
  - eexists; split; reflexivity.
Qed.

(** ** The bulk load *)

(** C9. A successful bulk response installs the points in the reverse of the
    order received and sets the current-value cells from the first record
    received; for the response [{25,0,100},{22,0,50}] the series is the point
    dated 50 followed by the point dated 100, and the current values are
    those of the record dated 100. *)
Theorem fetchData_reverses_newest_first (w : World) (newest : Item.t) (rest : list Item.t) :
  snapshot (fetchData_resume (Replied true (Some (newest :: rest))) w)
    = rev (map toPoint rest) ++ [toPoint newest] /\
  CurrentState (fetchData_resume (Replied true (Some (newest :: rest))) w)
    = payload newest /\
  (exists w',
     step (Data_response
             (Replied true (Some [Item.mk 100 (25 # 1) 0; Item.mk 50 (22 # 1) 0])))
          (fetchData w) = Some w' /\
     snapshot w' = [Point.mk (ValidDate 50) (22 # 1) 0;
                    Point.mk (ValidDate 100) (25 # 1) 0] /\
     CurrentState w' = (25 # 1, 0, Some (ValidDate 100))).
Proof.
  rewrite fetchData_resume_cons.
  split; [reflexivity|].
  split; [reflexivity|].
  eexists; split; [reflexivity|].
  split; reflexivity.
Qed.

(** ** Failed loads *)

(** C8, as amended. When the bulk fetch or the configuration fetch fails
    (the request is rejected, the status is not ok, or the body cannot be
    read), no cell of the component changes, no timer is set and nothing is
    sent. A rejected request and an unreadable body leave one console line,
    written by the [catch] block; a status that is not ok leaves none. A
    refresh whose two requests both fail shows the same dashboard as
    before. *)
Theorem failed_loads_keep_state (w : World)
    (rd : Response (list Item.t)) (rc : Response Config.t) :
  failed rd = true ->
  failed rc = true ->
  (app (fetchData_resume rd w) = app w /\
   timers (fetchData_resume rd w) = timers w /\
   posted (fetchData_resume rd w) = posted w /\
   console (fetchData_resume rd w)
     = console w ++ failure_log "Error fetching data:" rd) /\
  (app (fetchConfig_resume rc w) = app w /\
   timers (fetchConfig_resume rc w) = timers w /\
   posted (fetchConfig_resume rc w) = posted w /\
   console (fetchConfig_resume rc w)
     = console w ++ failure_log "Error fetching config:" rc) /\
  exists w',
    run [Click_Refresh; Data_response rd; Config_response rc] w = Some w' /\
    app w' = app w.
Proof.
  intros Hd Hc.
  destruct rd as [|[|] [jd|]]; try discriminate Hd;
  destruct rc as [|[|] [jc|]]; try discriminate Hc;
  (split; [|split]);
  try (repeat split; simpl; try rewrite app_nil_r; reflexivity);
  (eexists; split; reflexivity).
Qed.

Lemma failed_loads_keep_state_witness :
  failed (@Rejected (list Item.t)) = true /\
  failed (@Replied Config.t false None) = true /\
  exists w',
    run [Click_Refresh; Data_response Rejected; Config_response (Replied false None)]
        World_mounted = Some w' /\
    app w' = app World_mounted.
Proof.
  split; [reflexivity|].
  split; [reflexivity|].
  apply (failed_loads_keep_state World_mounted Rejected (Replied false None));
    reflexivity.
Defined.

(** C8 as stated fails in its logging part: an answer whose status is not
    ok is a failure of the load, and neither [fetchData] nor [fetchConfig]
    writes anything to the console for it. *)
Lemma failed_load_not_ok_unlogged_counterexample :
  failed (@Replied (list Item.t) false None) = true /\
  failed (@Replied Config.t false None) = true /\
  (exists w',
     step (Data_response (Replied false None)) World_mounted = Some w' /\
     console w' = []) /\
  (exists w',
     step (Config_response (Replied false None)) World_mounted = Some w' /\
     console w' = []) /\
  (exists w',
     step (Data_response Rejected) World_mounted = Some w' /\
     console w' = ["Error fetching data:"]).
Proof.
  repeat split; eexists; split; reflexivity.
Qed.

(** ** Order of the bulk load *)

Section SortedSnoc.
Context {A : Type} (R : A -> A -> Prop).

Lemma HdRel_snoc (b a : A) (l : list A) :
  HdRel R b l -> (l = [] -> R b a) -> HdRel R b (l ++ [a]).
Proof.
  intros Hb Hnil; destruct l as [|c l]; simpl.
  - constructor; apply Hnil; reflexivity.
  - constructor; inversion Hb; assumption.
Qed.

Lemma Sorted_snoc (l : list A) (a : A) :
  Sorted R l ->
  (forall l0 x, l = l0 ++ [x] -> R x a) ->
  Sorted R (l ++ [a]).
Proof.
  induction l as [|b l IH]; intros Hs Hlast; simpl.
  - repeat constructor.
  - apply Sorted_inv in Hs; destruct Hs as [Hs Hb].
    constructor.
    + apply IH; [exact Hs|].
      intros l0 x E; apply (Hlast (b :: l0) x); rewrite E; reflexivity.
    + apply HdRel_snoc; [exact Hb|].
      intro E; apply (Hlast [] b); rewrite E; reflexivity.
Qed.
End SortedSnoc.

Lemma chrono_toPoint (older newer : Item.t) :
  representable older -> representable newer ->
  newer_or_same newer older ->
  chrono (toPoint older) (toPoint newer).
Proof.
  unfold representable, newer_or_same, chrono, toPoint, new_Date; simpl.
  intros Ho Hn Hle.
  apply Z.leb_le in Ho, Hn; rewrite Ho, Hn; exact Hle.
Qed.

Lemma rev_newest_first_chronological (l : list Item.t) :
  newest_first l -> Forall representable l ->
  chronological (rev (map toPoint l)).
Proof.
  unfold newest_first, chronological.
  induction l as [|a l IH]; intros Hs Hr; simpl.
  - constructor.
  - apply Sorted_inv in Hs; destruct Hs as [Hs Ha].
    inversion Hr as [|a' l' Hra Hrl]; subst.
    apply Sorted_snoc; [apply IH; assumption|].
    intros l0 x E.
    destruct l as [|b l]; simpl in E.
    + destruct l0; discriminate E.
    + apply app_inj_tail in E; destruct E as [_ E]; subst x.
      inversion Ha; subst.
      inversion Hrl; subst.
      apply chrono_toPoint; assumption.
Qed.

(** C1, as amended. A bulk response that is newest first, has representable
    timestamps and at most 50 records is installed as a chronologically
    sorted series of at most 50 points that keeps every record: the series is
    the received sequence, point by point, in reverse. *)
Theorem bulk_load_newest_first_chronological (w : World) (jsonData : list Item.t) :
  newest_first jsonData ->
  Forall representable jsonData ->
  (List.length jsonData <= capacity)%nat ->
  chronological (snapshot (fetchData_resume (Replied true (Some jsonData)) w)) /\
  (List.length (snapshot (fetchData_resume (Replied true (Some jsonData)) w))
     <= 50)%nat /\
  snapshot (fetchData_resume (Replied true (Some jsonData)) w)
    = rev (map toPoint jsonData).
Proof.
  intros Hs Hr Hn.
  rewrite fetchData_resume_snapshot.
  split; [apply rev_newest_first_chronological; assumption|].
  split; [rewrite length_rev, length_map; exact Hn | reflexivity].
Qed.

Lemma bulk_load_newest_first_chronological_witness :
  newest_first [Item.mk 100 (25 # 1) 0; Item.mk 50 (22 # 1) 0] /\
  chronological
    (snapshot (fetchData_resume
                 (Replied true (Some [Item.mk 100 (25 # 1) 0; Item.mk 50 (22 # 1) 0]))
                 World_mounted)) /\
  (List.length
     (snapshot (fetchData_resume
                  (Replied true (Some [Item.mk 100 (25 # 1) 0; Item.mk 50 (22 # 1) 0]))
                  World_mounted)) <= 50)%nat.
Proof.
  assert (Hs : newest_first [Item.mk 100 (25 # 1) 0; Item.mk 50 (22 # 1) 0]).
  { repeat constructor; unfold newer_or_same; simpl; lia. }
  split; [exact Hs|].
  assert (Hr : Forall representable [Item.mk 100 (25 # 1) 0; Item.mk 50 (22 # 1) 0]).
  { repeat constructor; unfold representable, maxTime; simpl; lia. }
  assert (Hn : (List.length [Item.mk 100 (25 # 1) 0; Item.mk 50 (22 # 1) 0]
                <= capacity)%nat).
  { unfold capacity; simpl; lia. }
  destruct (bulk_load_newest_first_chronological World_mounted _ Hs Hr Hn)
    as [Hc [Hl _]].
  split; [exact Hc | exact Hl].
Defined.

(** C1 as stated fails: a response that arrives oldest first is installed
    newest first, since the load reverses and never sorts. *)
Lemma bulk_load_any_order_counterexample :
  ~ (forall (w : World) (jsonData : list Item.t),
       chronological
         (snapshot (fetchData_resume (Replied true (Some jsonData)) w)) /\
       (List.length
          (snapshot (fetchData_resume (Replied true (Some jsonData)) w))
        <= 50)%nat).
Proof.
  intro H.
  destruct (H World_mounted [Item.mk 50 (22 # 1) 0; Item.mk 100 (25 # 1) 0])
    as [Hc _].
  rewrite fetchData_resume_snapshot in Hc.
  apply Sorted_inv in Hc; destruct Hc as [_ Hh].
  inversion Hh as [|b l Hrel]; subst.
  unfold chrono, Date_le in Hrel; simpl in Hrel.
  lia.
Qed.

(** ** The slider *)






Lemma range_value_samples :
  range_value None = 30 # 1 /\
  range_value (Some (127 # 5)) = 25 # 1 /\
  range_value (Some (51 # 2)) = 26 # 1 /\
  range_value (Some (-3 # 1)) = 20 # 1.
Proof. repeat split. Qed.



(** ** The threshold update *)

(** C4. What the code does on a successful update: the confirmed threshold
    goes to the applied cell and the status to success, while the pending
    cell keeps its value. With the slider at 32 and a server that confirms 30,
    the dashboard ends with applied 30 and pending 32. *)
Theorem updateThreshold_success_keeps_pending (w : World) (config : Config.t) :
  applied (updateThreshold_resume (Replied true (Some config)) w)
    = Config.threshold config /\
  pending (updateThreshold_resume (Replied true (Some config)) w) = pending w /\
  status (app (updateThreshold_resume (Replied true (Some config)) w)) = success /\
  exists w',
    run [Slide (32 # 1); Click_Apply;
         Write_response (Replied true (Some (Config.mk (30 # 1))))]
        World_mounted = Some w' /\
    status (app w') = success /\
    applied w' = 30 # 1 /\
    pending w' = 32 # 1.
Proof.
  repeat split.
  eexists; repeat split.
Qed.

(** ** Timers *)

Lemma fold_setStatus_idle (l : list Z) (w : World) :
  fold_left (fun w' _ => setStatus idle w') l w =
  match l with [] => w | _ :: _ => setStatus idle w end.
Proof.
  revert w; induction l as [|t l IH]; intro w; simpl.
  - reflexivity.
  - rewrite IH; destruct l; reflexivity.
Qed.

Lemma elapse_app (dt : Z) (w : World) :
  app (elapse dt w) =
  match filter (is_due (now w + dt)) (timers w) with
  | [] => app w
  | _ :: _ => app (setStatus idle w)
  end.
Proof.
  unfold elapse, runTimers; simpl.
  rewrite fold_setStatus_idle.
  destruct (filter (is_due (now w + dt)) (timers w)); reflexivity.
Qed.

Lemma elapse_frame (dt : Z) (w : World) :
  now (elapse dt w) = now w + dt /\
  timers (elapse dt w)
    = filter (fun d => negb (is_due (now w + dt) d)) (timers w) /\
  writeReqs (elapse dt w) = writeReqs w /\
  posted (elapse dt w) = posted w /\
  applied (elapse dt w) = applied w /\
  pending (elapse dt w) = pending w.
Proof.
  unfold applied, pending; rewrite elapse_app.
  unfold elapse, runTimers; simpl.
  rewrite fold_setStatus_idle.
  destruct (filter (is_due (now w + dt)) (timers w)); repeat split.
Qed.

Lemma elapse_fires (dt : Z) (w : World) (t : Z) :
  In t (timers w) -> t <= now w + dt ->
  status (app (elapse dt w)) = idle /\ ~ In t (timers (elapse dt w)).
Proof.
  intros Hin Hdue; split.
  - rewrite elapse_app.
    destruct (filter (is_due (now w + dt)) (timers w)) as [|x l] eqn:E.
    + exfalso.
      assert (Hf : In t (filter (is_due (now w + dt)) (timers w))).
      { apply filter_In; split; [exact Hin|]. apply Z.leb_le; exact Hdue. }
      rewrite E in Hf; exact Hf.
    + reflexivity.
  - destruct (elapse_frame dt w) as [_ [Ht _]]; rewrite Ht.
    intro Hf; apply filter_In in Hf; destruct Hf as [_ Hf].
    unfold is_due in Hf.
    apply Z.leb_le in Hdue; rewrite Hdue in Hf; discriminate Hf.
Qed.

Lemma elapse_quiet (dt : Z) (w : World) :
  (forall t, In t (timers w) -> now w + dt < t) ->
  app (elapse dt w) = app w /\ timers (elapse dt w) = timers w.
Proof.
  intro Hlate; split.
  - rewrite elapse_app.
    destruct (filter (is_due (now w + dt)) (timers w)) as [|x l] eqn:E;
      [reflexivity|].
    exfalso.
    assert (Hf : In x (filter (is_due (now w + dt)) (timers w)))
      by (rewrite E; left; reflexivity).
    apply filter_In in Hf; destruct Hf as [Hin Hd].
    apply Z.leb_le in Hd; specialize (Hlate x Hin); lia.
  - destruct (elapse_frame dt w) as [_ [Ht _]]; rewrite Ht.
    clear Ht; induction (timers w) as [|x l IH]; simpl; [reflexivity|].
    assert (Hx : is_due (now w + dt) x = false).
    { apply Z.leb_gt; apply Hlate; left; reflexivity. }
    rewrite Hx; simpl; f_equal.
    apply IH; intros t Hin; apply Hlate; right; exact Hin.
Qed.

Lemma fetchData_resume_frame (r : Response (list Item.t)) (w : World) :
  timers (fetchData_resume r w) = timers w /\
  posted (fetchData_resume r w) = posted w /\
  writeReqs (fetchData_resume r w) = writeReqs w /\
  status (app (fetchData_resume r w)) = status (app w).
Proof.
  destruct r as [|[|] [[|newest rest]|]];
    try rewrite fetchData_resume_cons; repeat split.
Qed.

Lemma step_Elapse (dt : Z) (w : World) :
  0 <= dt -> step (Elapse dt) w = Some (elapse dt w).
Proof.
  intro H; simpl; apply Z.leb_le in H; rewrite H; reflexivity.
Qed.

(** ** The Apply button *)

(** C5. While the status is updating the Apply button is disabled: a click,
    or any number of clicks, leaves the whole world as it is, so no request
    is sent and the status is not set again. More generally no event at all
    sends a POST or adds a request in flight while the status is updating. *)
Theorem submit_while_updating_is_noop (w : World) :
  status (app w) = updating ->
  step Click_Apply w = Some w /\
  (forall n : nat, run (repeat Click_Apply n) w = Some w) /\
  (forall (e : Event) (w' : World),
     step e w = Some w' ->
     posted w' = posted w /\ (writeReqs w' <= writeReqs w)%nat).
Proof.
  intro Hu.
  assert (Hclick : step Click_Apply w = Some w).
  { simpl; unfold Apply_onClick, Apply_disabled; rewrite Hu; reflexivity. }
  split; [exact Hclick|].
  split.
  - induction n as [|n IH]; [reflexivity|].
    change (repeat Click_Apply (S n)) with (Click_Apply :: repeat Click_Apply n).
    cbn [run]; rewrite Hclick; exact IH.
  - intros e w' Hstep.
    destruct e as [| |v|d|c|r|r|r|dt].
    + rewrite Hclick in Hstep; inversion Hstep; subst; split; [reflexivity|lia].
    + inversion Hstep; subst; split; [reflexivity|simpl; lia].
    + inversion Hstep; subst; split; [reflexivity|simpl; lia].
    + inversion Hstep; subst; split; [reflexivity|simpl; lia].
    + inversion Hstep; subst; split; [reflexivity|simpl; lia].
    + simpl in Hstep; destruct (dataReqs w); [discriminate Hstep|].
      inversion Hstep; subst; unfold andThen.
      destruct (fetchData_resume_frame r (data_answered w)) as [_ [Hp [Hw _]]].
      rewrite Hp, Hw; split; [reflexivity|simpl; lia].
    + simpl in Hstep; destruct (configReqs w); [discriminate Hstep|].
      inversion Hstep; subst.
      destruct r as [|[|] [cfg|]]; split; solve [reflexivity | simpl; lia].
    + simpl in Hstep; destruct (writeReqs w) eqn:Ew; [discriminate Hstep|].
      inversion Hstep; subst.
      destruct r as [|[|] [cfg|]]; split;
        solve [reflexivity | simpl; rewrite Ew; simpl; lia].
    + simpl in Hstep; destruct (0 <=? dt); [|discriminate Hstep].
      inversion Hstep; subst.
      destruct (elapse_frame dt w) as [_ [_ [Hw [Hp _]]]].
      rewrite Hp, Hw; split; [reflexivity|lia].
Qed.

Lemma submit_while_updating_is_noop_witness :
  status (app (Apply_onClick World_mounted)) = updating /\
  step Click_Apply (Apply_onClick World_mounted)
    = Some (Apply_onClick World_mounted) /\
  posted (Apply_onClick World_mounted) = [30 # 1].
Proof.
  split; [reflexivity|].
  split; [|reflexivity].
  apply (submit_while_updating_is_noop (Apply_onClick World_mounted)).
  reflexivity.
Defined.

(** ** The automatic return to idle *)

Lemma updateThreshold_resume_schedules (r : Response Config.t) (w : World) :
  timers (updateThreshold_resume r w) = timers w ++ [now w + 3000] /\
  now (updateThreshold_resume r w) = now w /\
  status (app (updateThreshold_resume r w))
    = (if failed r then error else success).
Proof.
  destruct r as [|[|] [cfg|]]; repeat split.
Qed.


Lemma step_keeps_timers (e : Event) (w w' : World) (t : Z) :
  step e w = Some w' ->
  In t (timers w) ->
  In t (timers w') \/ exists dt, e = Elapse dt /\ t <= now w + dt.
Proof.
  intros Hstep Hin.
  destruct e as [| |v|d|c|r|r|r|dt]; simpl in Hstep.
  - inversion Hstep; subst; left.
    unfold Apply_onClick; destruct (Apply_disabled w); exact Hin.
  - inversion Hstep; subst; left; exact Hin.
  - inversion Hstep; subst; left; exact Hin.
  - inversion Hstep; subst; left; exact Hin.
  - inversion Hstep; subst; left; exact Hin.
  - destruct (dataReqs w); [discriminate Hstep|].
    inversion Hstep; subst; left; unfold andThen.
    destruct (fetchData_resume_frame r (data_answered w)) as [Ht _].
    rewrite Ht; exact Hin.
  - destruct (configReqs w); [discriminate Hstep|].
    inversion Hstep; subst; left.
    destruct r as [|[|] [cfg|]]; exact Hin.
  - destruct (writeReqs w); [discriminate Hstep|].
    inversion Hstep; subst; left; unfold andThen.
    destruct (updateThreshold_resume_schedules r (write_answered w)) as [Ht _].
    rewrite Ht; apply in_or_app; left; exact Hin.
  - destruct (0 <=? dt); [|discriminate Hstep].
    inversion Hstep; subst.
    destruct (Z_le_gt_dec t (now w + dt)) as [Hdue|Hlate].
    + right; exists dt; split; [reflexivity | exact Hdue].
    + left.
      destruct (elapse_frame dt w) as [_ [Ht _]]; rewrite Ht.
      apply filter_In; split; [exact Hin|].
      unfold is_due; apply negb_true_iff, Z.leb_gt; lia.
Qed.

(** C6, as amended. A scheduled return to idle is never cancelled: a click
    on Apply leaves it scheduled, no event other than the passing of its due
    time takes it off the list, and when its due time passes it sets the
    status to idle whatever the status is at that moment. *)
Theorem auto_revert_never_cancelled (w : World) (t : Z) :
  In t (timers w) ->
  In t (timers (Apply_onClick w)) /\
  (forall (e : Event) (w' : World),
     step e w = Some w' ->
     In t (timers w') \/ exists dt, e = Elapse dt /\ t <= now w + dt) /\
  (forall dt : Z,
     0 <= dt -> t <= now w + dt ->
     exists w',
       step (Elapse dt) w = Some w' /\
       status (app w') = idle /\
       ~ In t (timers w')).
Proof.
  intro Hin.
  split.
  - unfold Apply_onClick; destruct (Apply_disabled w); exact Hin.
  - split.
    + intros e w' Hstep; exact (step_keeps_timers e w w' t Hstep Hin).
    + intros dt Hdt Hdue.
      exists (elapse dt w); split; [apply step_Elapse; exact Hdt|].
      apply (elapse_fires dt w t Hin Hdue).
Qed.

(** C6 as stated fails. A first update succeeds at 100 ms and schedules the
    return to idle for 3100 ms; Apply is clicked again at 2000 ms; at 3100 ms
    the old timer fires and puts the status back to idle although the second
    request is still in flight. *)
Lemma auto_revert_stale_timer_counterexample :
  exists w1 w2 : World,
    run [Click_Apply; Elapse 100;
         Write_response (Replied true (Some (Config.mk (30 # 1))));
         Elapse 1900; Click_Apply] World_mounted = Some w1 /\
    status (app w1) = updating /\
    writeReqs w1 = 1%nat /\
    timers w1 = [3100] /\
    now w1 = 2000 /\
    step (Elapse 1100) w1 = Some w2 /\
    status (app w2) = idle /\
    writeReqs w2 = 1%nat.
Proof.
  eexists; eexists.
  split; [vm_compute; reflexivity|].
  repeat split.
Qed.

Lemma World_after_success_reached :
  run [Click_Apply; Elapse 100;
       Write_response (Replied true (Some (Config.mk (30 # 1))));
       Elapse 1900] World_mounted = Some World_after_success.
Proof. vm_compute; reflexivity. Qed.

Lemma auto_revert_never_cancelled_witness :
  In 3100 (timers World_after_success) /\
  In 3100 (timers (Apply_onClick World_after_success)) /\
  exists w' : World,
    step (Elapse 1100) World_after_success = Some w' /\
    status (app w') = idle /\
    ~ In 3100 (timers w').
Proof.
  assert (Hin : In 3100 (timers World_after_success)) by (left; reflexivity).
  split; [exact Hin|].
  destruct (auto_revert_never_cancelled World_after_success 3100 Hin)
    as [Hclick [_ Hfire]].
  split; [exact Hclick|].
  apply (Hfire 1100).
  - lia.
  - simpl; lia.
Defined.

(** ** A failed update *)




(** * Further properties of the handlers *)

(** ** Invariants of runs *)

Lemma run_invariant (P : World -> Prop) :
  (forall e w w', step e w = Some w' -> P w -> P w') ->
  forall es w w', run es w = Some w' -> P w -> P w'.
Proof.
  intros Hstep es; induction es as [|e es IH]; intros w w' Hrun Hw; simpl in Hrun.
  - inversion Hrun; subst; exact Hw.
  - destruct (step e w) as [w1|] eqn:E; [|discriminate Hrun].
    apply (IH w1 w' Hrun), (Hstep e w w1 E Hw).
Qed.

Lemma fetchData_resume_thresholds (r : Response (list Item.t)) (w : World) :
  now (fetchData_resume r w) = now w /\
  applied (fetchData_resume r w) = applied w /\
  pending (fetchData_resume r w) = pending w.
Proof.
  destruct r as [|[|] [[|newest rest]|]];
    try rewrite fetchData_resume_cons; repeat split.
Qed.

(** ** The buffer under pushes, exactly *)

Lemma firstn_cons_firstn {A : Type} (n : nat) (x : A) (l : list A) :
  firstn n (x :: firstn n l) = firstn n (x :: l).
Proof.
  destruct n as [|n]; [reflexivity|].
  rewrite !firstn_cons; f_equal.
  rewrite firstn_firstn.
  replace (Init.Nat.min n (S n)) with n by lia.
  reflexivity.
Qed.

Lemma snapshot_pushes (ds : list Item.t) (w : World) :
  snapshot (fold_left (fun w' d => on_data_update d w') ds w) =
  match ds with
  | [] => snapshot w
  | _ :: _ => firstn capacity (rev (map toPoint ds) ++ snapshot w)
  end.
Proof.
  induction ds as [|d ds IH] using rev_ind; [reflexivity|].
  rewrite fold_left_app; cbn [fold_left].
  rewrite snapshot_push, IH.
  destruct (ds ++ [d]) as [|x l] eqn:E;
    [apply app_eq_nil in E; destruct E as [_ E]; discriminate E|].
  rewrite <- E, map_app, rev_app_distr; cbn [map rev app].
  destruct ds as [|d0 ds].
  - reflexivity.
  - apply firstn_cons_firstn.
Qed.

(** X1. After at least one push the buffer is the first 50 entries of the
    pushed points, newest first, followed by what the buffer held at the
    start: nothing is reordered, dropped from the middle or deduplicated. *)
Theorem pushes_snapshot_exact (w : World) (d : Item.t) (ds : list Item.t) :
  exists w',
    run (map Push_data (d :: ds)) w = Some w' /\
    snapshot w'
      = firstn 50 (rev (map toPoint (d :: ds)) ++ snapshot w).
Proof.
  eexists; split; [apply run_pushes|].
  apply (snapshot_pushes (d :: ds) w).
Qed.

(** X2. Once 50 or more points have been pushed, nothing of the starting
    buffer is left: the buffer is the last 50 pushed points, newest first. *)
Theorem pushes_evict_start (w : World) (ds : list Item.t) :
  (50 <= List.length ds)%nat ->
  exists w',
    run (map Push_data ds) w = Some w' /\
    snapshot w' = firstn 50 (rev (map toPoint ds)) /\
    List.length (snapshot w') = 50%nat.
Proof.
  intro Hn.
  eexists; split; [apply run_pushes|].
  rewrite snapshot_pushes.
  destruct ds as [|d ds]; [simpl in Hn; lia|].
  assert (Hlen : (50 <= List.length (rev (map toPoint (d :: ds))))%nat)
    by (rewrite length_rev, length_map; exact Hn).
  unfold capacity.
  rewrite firstn_app.
  replace (50 - List.length (rev (map toPoint (d :: ds))))%nat with O by lia.
  rewrite firstn_O, app_nil_r.
  split; [reflexivity|].
  rewrite length_firstn; lia.
Qed.

Lemma pushes_evict_start_witness :
  (50 <= List.length (repeat (Item.mk 7 (21 # 1) 10) 50))%nat /\
  exists w',
    run (map Push_data (repeat (Item.mk 7 (21 # 1) 10) 50)) World_after_success
      = Some w' /\
    snapshot w' = firstn 50 (rev (map toPoint (repeat (Item.mk 7 (21 # 1) 10) 50))) /\
    List.length (snapshot w') = 50%nat.
Proof.
  assert (H : (50 <= List.length (repeat (Item.mk 7 (21 # 1) 10) 50))%nat)
    by (rewrite repeat_length; lia).
  split; [exact H|].
  apply (pushes_evict_start World_after_success _ H).
Defined.

(** ** Bulk load and pushes together *)

Lemma pushes_dataReqs (ds : list Item.t) (w : World) :
  dataReqs (fold_left (fun w' d => on_data_update d w') ds w) = dataReqs w.
Proof.
  revert w; induction ds as [|d ds IH]; intro w; simpl;
    [reflexivity | rewrite IH; reflexivity].
Qed.

Lemma firstn_snoc_drop {A : Type} (n : nat) (l : list A) (x : A) :
  (n <= List.length l)%nat -> firstn n (l ++ [x]) = firstn n l.
Proof.
  intro H; rewrite firstn_app.
  replace (n - List.length l)%nat with O by lia.
  rewrite firstn_O, app_nil_r; reflexivity.
Qed.

(** X3. The bulk load stores oldest first and a push adds at the front and
    cuts at the end. So when a load of 50 or more records is followed by a
    push, the record dropped is the newest one of the load (the first
    received), and the new point stands before the oldest records. *)
Theorem push_after_full_load_drops_newest
    (w : World) (newest : Item.t) (rest : list Item.t) (d : Item.t) :
  (49 <= List.length rest)%nat ->
  exists w',
    run [Data_response (Replied true (Some (newest :: rest))); Push_data d]
        (fetchData w) = Some w' /\
    snapshot w' = toPoint d :: firstn 49 (rev (map toPoint rest)) /\
    CurrentState w' = payload d.
Proof.
  intro Hn.
  eexists; split; [reflexivity|].
  split; [|reflexivity].
  unfold andThen.
  rewrite snapshot_push, fetchData_resume_snapshot.
  change (rev (map toPoint (newest :: rest)))
    with (rev (map toPoint rest) ++ [toPoint newest]).
  unfold capacity; rewrite firstn_cons; f_equal.
  apply firstn_snoc_drop.
  rewrite length_rev, length_map; exact Hn.
Qed.

Lemma push_after_full_load_drops_newest_witness :
  (49 <= List.length (repeat (Item.mk 50 (22 # 1) 0) 49))%nat /\
  exists w',
    run [Data_response
           (Replied true (Some (Item.mk 100 (25 # 1) 0
                                  :: repeat (Item.mk 50 (22 # 1) 0) 49)));
         Push_data (Item.mk 200 (26 # 1) 10)]
        (fetchData World_mounted) = Some w' /\
    snapshot w'
      = toPoint (Item.mk 200 (26 # 1) 10)
          :: firstn 49 (rev (map toPoint (repeat (Item.mk 50 (22 # 1) 0) 49))) /\
    CurrentState w' = payload (Item.mk 200 (26 # 1) 10).
Proof.
  assert (H : (49 <= List.length (repeat (Item.mk 50 (22 # 1) 0) 49))%nat)
    by (rewrite repeat_length; lia).
  split; [exact H|].
  apply (push_after_full_load_drops_newest World_mounted
           (Item.mk 100 (25 # 1) 0) _ (Item.mk 200 (26 # 1) 10) H).
Defined.

(** X4. A successful bulk response with no records empties the chart,
    whatever had been pushed before, and leaves the current temperature, fan
    speed and last-update time at the values of the last push. *)
Theorem empty_load_clears_chart_only (w : World) (ds : list Item.t) (d : Item.t) :
  exists w',
    run (map Push_data (ds ++ [d]) ++ [Data_response (Replied true (Some []))])
        (fetchData w) = Some w' /\
    snapshot w' = [] /\
    CurrentState w' = payload d.
Proof.
  rewrite run_app, run_pushes.
  cbn [run step].
  rewrite pushes_dataReqs.
  cbn [fetchData get_data dataReqs].
  eexists; split; [reflexivity|].
  split; [reflexivity|].
  rewrite fold_left_app; reflexivity.
Qed.

(** ** Configuration from the server *)

(** X5. A [config_update] push and a successful configuration fetch do the
    same thing: applied and pending threshold both become the received
    value, with no range check, in any status; status, timers, requests and
    chart are untouched, and receiving the same configuration again changes
    nothing. *)
Theorem server_config_sets_both (w : World) (c : Config.t) :
  fetchConfig_resume (Replied true (Some c)) w = on_config_update c w /\
  applied (on_config_update c w) = Config.threshold c /\
  pending (on_config_update c w) = Config.threshold c /\
  status (app (on_config_update c w)) = status (app w) /\
  timers (on_config_update c w) = timers w /\
  writeReqs (on_config_update c w) = writeReqs w /\
  posted (on_config_update c w) = posted w /\
  snapshot (on_config_update c w) = snapshot w /\
  CurrentState (on_config_update c w) = CurrentState w /\
  on_config_update c (on_config_update c w) = on_config_update c w.
Proof.
  repeat split.
Qed.

Lemma Apply_enabled_click (w : World) :
  status (app w) <> updating ->
  step Click_Apply w = Some (updateThreshold w).
Proof.
  intro H; simpl; unfold Apply_onClick, Apply_disabled.
  destruct (status (app w)); try reflexivity.
  exfalso; apply H; reflexivity.
Qed.

(** X6. Between a configuration pushed while an update is in flight and the
    answer to that update, the one handled last wins for the applied
    threshold: if the answer comes last, applied is the confirmed value while
    pending keeps the pushed one; if the push comes last, both are the pushed
    value. *)
Theorem config_push_and_update_last_wins (w : World) (pushed confirmed : Config.t) :
  status (app w) <> updating ->
  (exists w1,
     run [Click_Apply; Push_config pushed;
          Write_response (Replied true (Some confirmed))] w = Some w1 /\
     applied w1 = Config.threshold confirmed /\
     pending w1 = Config.threshold pushed /\
     status (app w1) = success) /\
  (exists w2,
     run [Click_Apply; Write_response (Replied true (Some confirmed));
          Push_config pushed] w = Some w2 /\
     applied w2 = Config.threshold pushed /\
     pending w2 = Config.threshold pushed /\
     status (app w2) = success).
Proof.
  intro H.
  split; eexists; (split; [cbn [run]; rewrite (Apply_enabled_click w H);
                           reflexivity|]); repeat split.
Qed.

Lemma config_push_and_update_last_wins_witness :
  status (app World_mounted) <> updating /\
  exists w1,
    run [Click_Apply; Push_config (Config.mk (35 # 1));
         Write_response (Replied true (Some (Config.mk (30 # 1))))]
        World_mounted = Some w1 /\
    applied w1 = 30 # 1 /\
    pending w1 = 35 # 1 /\
    status (app w1) = success.
Proof.
  assert (H : status (app World_mounted) <> updating) by discriminate.
  split; [exact H|].
  apply (config_push_and_update_last_wins World_mounted
           (Config.mk (35 # 1)) (Config.mk (30 # 1)) H).
Defined.

(** ** What each cell can be changed by *)

Ltac step_cases H :=
  match type of H with
  | step ?e ?w = Some ?w' =>
      destruct e as [| |v|d|c|r|r|r|dt]; simpl in H;
      [ | | | | |
        destruct (dataReqs w) eqn:?; [discriminate H|] |
        destruct (configReqs w) eqn:?; [discriminate H|] |
        destruct (writeReqs w) eqn:?; [discriminate H|] |
        destruct (0 <=? dt) eqn:?; [|discriminate H] ];
      inversion H; subst w'; clear H
  end.

Lemma In_firstn {A : Type} (n : nat) (l : list A) (x : A) :
  In x (firstn n l) -> In x l.
Proof.
  intro H; rewrite <- (firstn_skipn n l); apply in_or_app; left; exact H.
Qed.

Lemma elapse_cells (dt : Z) (w : World) :
  data (app (elapse dt w)) = data (app w) /\
  lastUpdate (app (elapse dt w)) = lastUpdate (app w) /\
  currentTemp (app (elapse dt w)) = currentTemp (app w) /\
  currentFanSpeed (app (elapse dt w)) = currentFanSpeed (app w).
Proof.
  rewrite elapse_app.
  destruct (filter (is_due (now w + dt)) (timers w)); repeat split.
Qed.

(** X7. The only event that sends a POST is a click on Apply while the
    status is not updating; it sends exactly one, whose body is the pending
    threshold of that moment, and puts the status to updating. *)
Theorem post_only_by_enabled_click (e : Event) (w w' : World) :
  step e w = Some w' ->
  posted w' <> posted w ->
  e = Click_Apply /\
  status (app w) <> updating /\
  posted w' = posted w ++ [pending w] /\
  writeReqs w' = S (writeReqs w) /\
  status (app w') = updating.
Proof.
  intros Hstep Hne.
  step_cases Hstep; try (exfalso; apply Hne; reflexivity).
  - unfold Apply_onClick, Apply_disabled in *.
    destruct (status (app w)) eqn:E; simpl in *;
      try (exfalso; apply Hne; reflexivity);
      (split; [reflexivity|]; split; [discriminate|]; repeat split).
  - exfalso; apply Hne; unfold andThen.
    destruct (fetchData_resume_frame r (data_answered w)) as [_ [Hp _]].
    rewrite Hp; reflexivity.
  - exfalso; apply Hne; destruct r as [|[|] [cfg|]]; reflexivity.
  - exfalso; apply Hne; destruct r as [|[|] [cfg|]]; reflexivity.
  - exfalso; apply Hne.
    destruct (elapse_frame dt w) as [_ [_ [_ [Hp _]]]]; exact Hp.
Qed.

Lemma post_only_by_enabled_click_witness :
  step Click_Apply World_after_success
    = Some (updateThreshold World_after_success) /\
  posted (updateThreshold World_after_success) = [30 # 1; 30 # 1] /\
  status (app World_after_success) <> updating.
Proof.
  split; [reflexivity|].
  split; [reflexivity|].
  apply (post_only_by_enabled_click Click_Apply World_after_success
           (updateThreshold World_after_success)).
  - reflexivity.
  - discriminate.
Defined.

(** X8. The applied threshold changes only when the server says so: by a
    [config_update] push, a successful configuration fetch or a successful
    answer to an update, and then it is the threshold received. Moving the
    slider, clicking, failed requests, data and timers never change it. *)
Theorem applied_only_from_server (e : Event) (w w' : World) :
  step e w = Some w' ->
  applied w' <> applied w ->
  exists c : Config.t,
    (e = Push_config c \/
     e = Config_response (Replied true (Some c)) \/
     e = Write_response (Replied true (Some c))) /\
    applied w' = Config.threshold c.
Proof.
  intros Hstep Hne.
  step_cases Hstep; try (exfalso; apply Hne; reflexivity).
  - exfalso; apply Hne; unfold Apply_onClick.
    destruct (Apply_disabled w); reflexivity.
  - exists c; split; [left; reflexivity | reflexivity].
  - exfalso; apply Hne; unfold andThen.
    destruct (fetchData_resume_thresholds r (data_answered w)) as [_ [Ha _]].
    rewrite Ha; reflexivity.
  - destruct r as [|[|] [cfg|]]; try (exfalso; apply Hne; reflexivity).
    exists cfg; split; [right; left; reflexivity | reflexivity].
  - destruct r as [|[|] [cfg|]]; try (exfalso; apply Hne; reflexivity).
    exists cfg; split; [right; right; reflexivity | reflexivity].
  - exfalso; apply Hne.
    destruct (elapse_frame dt w) as [_ [_ [_ [_ [Ha _]]]]]; exact Ha.
Qed.

Lemma applied_only_from_server_witness :
  step (Push_config (Config.mk (35 # 1))) World_mounted
    = Some (on_config_update (Config.mk (35 # 1)) World_mounted) /\
  exists c : Config.t,
    (Push_config (Config.mk (35 # 1)) = Push_config c \/
     Push_config (Config.mk (35 # 1)) = Config_response (Replied true (Some c)) \/
     Push_config (Config.mk (35 # 1)) = Write_response (Replied true (Some c))) /\
    applied (on_config_update (Config.mk (35 # 1)) World_mounted)
      = Config.threshold c.
Proof.
  split; [reflexivity|].
  apply (applied_only_from_server (Push_config (Config.mk (35 # 1)))
           World_mounted).
  - reflexivity.
  - discriminate.
Defined.

(** X9. The pending threshold changes only by the slider, by a
    [config_update] push or by a successful configuration fetch, and becomes
    the value carried; the answer to an update, successful or not, never
    changes it. *)
Theorem pending_only_from_slider_or_config (e : Event) (w w' : World) :
  step e w = Some w' ->
  pending w' <> pending w ->
  (exists v : Q, e = Slide v /\ pending w' = v) \/
  (exists c : Config.t,
     (e = Push_config c \/ e = Config_response (Replied true (Some c))) /\
     pending w' = Config.threshold c).
Proof.
  intros Hstep Hne.
  step_cases Hstep; try (exfalso; apply Hne; reflexivity).
  - exfalso; apply Hne; unfold Apply_onClick.
    destruct (Apply_disabled w); reflexivity.
  - left; exists v; split; reflexivity.
  - right; exists c; split; [left; reflexivity | reflexivity].
  - exfalso; apply Hne; unfold andThen.
    destruct (fetchData_resume_thresholds r (data_answered w)) as [_ [_ Hp]].
    rewrite Hp; reflexivity.
  - destruct r as [|[|] [cfg|]]; try (exfalso; apply Hne; reflexivity).
    right; exists cfg; split; [right; reflexivity | reflexivity].
  - exfalso; apply Hne; destruct r as [|[|] [cfg|]]; reflexivity.
  - exfalso; apply Hne.
    destruct (elapse_frame dt w) as [_ [_ [_ [_ [_ Hp]]]]]; exact Hp.
Qed.

Lemma pending_only_from_slider_or_config_witness :
  step (Slide (25 # 1)) World_mounted
    = Some (slider_onChange (25 # 1) World_mounted) /\
  ((exists v : Q,
      Slide (25 # 1) = Slide v /\
      pending (slider_onChange (25 # 1) World_mounted) = v) \/
   (exists c : Config.t,
      (Slide (25 # 1) = Push_config c \/
       Slide (25 # 1) = Config_response (Replied true (Some c))) /\
      pending (slider_onChange (25 # 1) World_mounted) = Config.threshold c)).
Proof.
  split; [reflexivity|].
  apply (pending_only_from_slider_or_config (Slide (25 # 1)) World_mounted).
  - reflexivity.
  - discriminate.
Defined.

(** X10. Every point of the chart comes from the server: after an event a
    point of the buffer was already there, or is the point of the pushed
    record, or is the point of a record of the bulk response just handled. *)
Theorem points_come_from_items (e : Event) (w w' : World) (p : Point.t) :
  step e w = Some w' ->
  In p (snapshot w') ->
  In p (snapshot w) \/
  (exists d : Item.t, e = Push_data d /\ p = toPoint d) \/
  (exists jsonData : list Item.t,
     e = Data_response (Replied true (Some jsonData)) /\
     In p (map toPoint jsonData)).
Proof.
  intros Hstep Hin.
  step_cases Hstep; try (left; exact Hin).
  - left; unfold Apply_onClick in Hin.
    destruct (Apply_disabled w); exact Hin.
  - rewrite snapshot_push in Hin; apply In_firstn in Hin.
    destruct Hin as [<-|Hin].
    + right; left; exists d; split; reflexivity.
    + left; exact Hin.
  - unfold andThen in Hin.
    destruct r as [|[|] [jsonData|]]; try (left; exact Hin).
    rewrite fetchData_resume_snapshot in Hin.
    right; right; exists jsonData; split; [reflexivity|].
    apply in_rev; exact Hin.
  - left; destruct r as [|[|] [cfg|]]; exact Hin.
  - left; destruct r as [|[|] [cfg|]]; exact Hin.
  - left; unfold snapshot in *.
    destruct (elapse_cells dt w) as [Hd _]; rewrite Hd in Hin; exact Hin.
Qed.

Lemma points_come_from_items_witness :
  step (Push_data (Item.mk 100 (25 # 1) 0)) World_mounted
    = Some (on_data_update (Item.mk 100 (25 # 1) 0) World_mounted) /\
  In (Point.mk (ValidDate 100) (25 # 1) 0)
     (snapshot (on_data_update (Item.mk 100 (25 # 1) 0) World_mounted)) /\
  (In (Point.mk (ValidDate 100) (25 # 1) 0) (snapshot World_mounted) \/
   (exists d : Item.t,
      Push_data (Item.mk 100 (25 # 1) 0) = Push_data d /\
      Point.mk (ValidDate 100) (25 # 1) 0 = toPoint d) \/
   (exists jsonData : list Item.t,
      Push_data (Item.mk 100 (25 # 1) 0)
        = Data_response (Replied true (Some jsonData)) /\
      In (Point.mk (ValidDate 100) (25 # 1) 0) (map toPoint jsonData))).
Proof.
  split; [reflexivity|].
  assert (Hin : In (Point.mk (ValidDate 100) (25 # 1) 0)
                   (snapshot (on_data_update (Item.mk 100 (25 # 1) 0)
                                             World_mounted)))
    by (left; reflexivity).
  split; [exact Hin|].
  apply (points_come_from_items (Push_data (Item.mk 100 (25 # 1) 0))
           World_mounted
           (on_data_update (Item.mk 100 (25 # 1) 0) World_mounted)).
  - reflexivity.
  - exact Hin.
Defined.

(** ** What holds along every run *)

Lemma step_keeps_lastUpdate (e : Event) (w w' : World) :
  step e w = Some w' ->
  lastUpdate (app w) <> None -> lastUpdate (app w') <> None.
Proof.
  intros Hstep Hw.
  step_cases Hstep; try exact Hw; try discriminate.
  - unfold Apply_onClick; destruct (Apply_disabled w); exact Hw.
  - unfold andThen.
    destruct r as [|[|] [[|newest rest]|]]; try exact Hw.
    rewrite fetchData_resume_cons; discriminate.
  - destruct r as [|[|] [cfg|]]; exact Hw.
  - destruct r as [|[|] [cfg|]]; exact Hw.
  - destruct (elapse_cells dt w) as [_ [Hl _]]; rewrite Hl; exact Hw.
Qed.

(** X11. Once a last-update time is known it is never cleared: after a first
    data push, whatever events follow (failed or empty loads, clicks, timers,
    configuration changes), the last-update cell holds a date. *)
Theorem lastUpdate_never_cleared (w : World) (d : Item.t) (es : list Event) (w' : World) :
  run (Push_data d :: es) w = Some w' ->
  exists date : Date, lastUpdate (app w') = Some date.
Proof.
  cbn [run step]; intro Hrun.
  assert (H : lastUpdate (app w') <> None).
  { apply (run_invariant (fun x => lastUpdate (app x) <> None)
             step_keeps_lastUpdate es _ w' Hrun).
    discriminate. }
  destruct (lastUpdate (app w')) as [date|]; [exists date; reflexivity|].
  exfalso; apply H; reflexivity.
Qed.

Lemma lastUpdate_never_cleared_witness :
  exists date : Date,
    lastUpdate
      (app (elapse 5000
              (fetchData_resume (Replied true (Some []))
                 (data_answered (on_data_update (Item.mk 100 (25 # 1) 0)
                                                World_mounted)))))
    = Some date.
Proof.
  apply (lastUpdate_never_cleared World_mounted (Item.mk 100 (25 # 1) 0)
           [Data_response (Replied true (Some [])); Elapse 5000]).
  reflexivity.
Defined.

Lemma step_updating_has_request (e : Event) (w w' : World) :
  step e w = Some w' -> updating_has_request w -> updating_has_request w'.
Proof.
  unfold updating_has_request; intros Hstep Hw.
  step_cases Hstep; try exact Hw.
  - unfold Apply_onClick, Apply_disabled.
    destruct (status (app w)) eqn:E; simpl; intros; try lia.
    apply Hw; reflexivity.
  - unfold andThen.
    destruct (fetchData_resume_frame r (data_answered w)) as [_ [_ [Hq Hs]]].
    rewrite Hq, Hs; exact Hw.
  - destruct r as [|[|] [cfg|]]; exact Hw.
  - destruct r as [|[|] [cfg|]]; simpl; discriminate.
  - destruct (elapse_frame dt w) as [_ [_ [Hq _]]]; rewrite Hq.
    rewrite elapse_app.
    destruct (filter (is_due (now w + dt)) (timers w)); [exact Hw|].
    simpl; discriminate.
Qed.

(** X12. The Apply button cannot stay disabled for ever by itself: in every
    world reached from the mounted dashboard, a status of updating comes with
    a request in flight, and the answer to it, whatever it is, takes the
    status out of updating and enables the button again. *)
Theorem updating_always_answerable (es : list Event) (w : World) (r : Response Config.t) :
  run es World_mounted = Some w ->
  status (app w) = updating ->
  (0 < writeReqs w)%nat /\
  exists w',
    step (Write_response r) w = Some w' /\
    status (app w') = (if failed r then error else success) /\
    Apply_disabled w' = false.
Proof.
  intros Hrun Hu.
  assert (Hreq : (0 < writeReqs w)%nat).
  { apply (run_invariant updating_has_request step_updating_has_request
             es World_mounted w Hrun); [|exact Hu].
    unfold updating_has_request; simpl; discriminate. }
  split; [exact Hreq|].
  simpl; destruct (writeReqs w) as [|n]; [lia|].
  eexists; split; [reflexivity|].
  unfold andThen.
  destruct (updateThreshold_resume_schedules r (write_answered w))
    as [_ [_ Hs]].
  split; [exact Hs|].
  unfold Apply_disabled; rewrite Hs; destruct (failed r); reflexivity.
Qed.

Lemma updating_always_answerable_witness :
  run [Click_Apply] World_mounted = Some (updateThreshold World_mounted) /\
  (0 < writeReqs (updateThreshold World_mounted))%nat /\
  exists w',
    step (Write_response Rejected) (updateThreshold World_mounted) = Some w' /\
    status (app w') = error /\
    Apply_disabled w' = false.
Proof.
  split; [reflexivity|].
  apply (updating_always_answerable [Click_Apply]
           (updateThreshold World_mounted) Rejected);
    reflexivity.
Defined.

Lemma step_timers_live (e : Event) (w w' : World) :
  step e w = Some w' -> timers_live w -> timers_live w'.
Proof.
  unfold timers_live, showing_result; intros Hstep [Hall Hshow].
  step_cases Hstep; try (split; assumption).
  - unfold Apply_onClick.
    destruct (Apply_disabled w); [split; assumption|].
    split; [exact Hall|].
    simpl; intros [H|H]; discriminate H.
  - unfold andThen.
    destruct (fetchData_resume_frame r (data_answered w)) as [Ht [_ [_ Hs]]].
    destruct (fetchData_resume_thresholds r (data_answered w)) as [Hn _].
    rewrite Ht, Hs, Hn; split; assumption.
  - destruct r as [|[|] [cfg|]]; split; assumption.
  - unfold andThen.
    destruct (updateThreshold_resume_schedules r (write_answered w))
      as [Ht [Hn _]].
    rewrite Ht, Hn; simpl; split.
    + apply Forall_app; split; [exact Hall|].
      constructor; [lia | constructor].
    + intros _ E; apply app_eq_nil in E; destruct E as [_ E]; discriminate E.
  - destruct (elapse_frame dt w) as [Hn [Ht _]].
    assert (Hdt : 0 <= dt) by (apply Z.leb_le; assumption).
    split.
    + rewrite Hn, Ht; apply Forall_forall; intros t Hin.
      apply filter_In in Hin; destruct Hin as [Hin Hlate].
      unfold is_due in Hlate; apply negb_true_iff, Z.leb_gt in Hlate.
      rewrite Forall_forall in Hall; specialize (Hall t Hin); lia.
    + intro Hres.
      rewrite elapse_app in Hres.
      destruct (filter (is_due (now w + dt)) (timers w)) as [|x l] eqn:E.
      * destruct (elapse_quiet dt w) as [_ Hsame].
        { intros t Hin.
          destruct (Z_le_gt_dec t (now w + dt)) as [Hdue|Hlate]; [|lia].
          exfalso.
          assert (Hf : In t (filter (is_due (now w + dt)) (timers w))).
          { apply filter_In; split; [exact Hin|]. apply Z.leb_le; exact Hdue. }
          rewrite E in Hf; exact Hf. }
        rewrite Hsame; apply Hshow; exact Hres.
      * simpl in Hres; destruct Hres as [H|H]; discriminate H.
Qed.

(** X13. An outcome never stays on the button: in every world reached from
    the mounted dashboard in which the status is success or error, a return
    to idle is pending and due within 3000 ms, so after 3000 ms without any
    other event the status is idle. *)
Theorem outcome_clears_within_3000 (es : list Event) (w : World) :
  run es World_mounted = Some w ->
  showing_result w ->
  (exists t : Z, In t (timers w) /\ now w < t <= now w + 3000) /\
  exists w',
    step (Elapse 3000) w = Some w' /\ status (app w') = idle.
Proof.
  intros Hrun Hres.
  assert (Hlive : timers_live w).
  { apply (run_invariant timers_live step_timers_live es World_mounted w Hrun).
    split; [constructor|].
    intros [H|H]; discriminate H. }
  destruct Hlive as [Hall Hshow].
  specialize (Hshow Hres).
  destruct (timers w) as [|t ts] eqn:E; [exfalso; apply Hshow; reflexivity|].
  inversion Hall as [|t' ts' Ht Hts]; subst.
  assert (Hin : In t (timers w)) by (rewrite E; left; reflexivity).
  split.
  - exists t; split; [rewrite <- E; exact Hin | exact Ht].
  - exists (elapse 3000 w); split; [apply step_Elapse; lia|].
    apply (elapse_fires 3000 w t Hin); lia.
Qed.

Lemma outcome_clears_within_3000_witness :
  showing_result World_after_success /\
  exists w',
    step (Elapse 3000) World_after_success = Some w' /\ status (app w') = idle.
Proof.
  assert (H : showing_result World_after_success) by (left; reflexivity).
  split; [exact H|].
  apply (outcome_clears_within_3000
           [Click_Apply; Elapse 100;
            Write_response (Replied true (Some (Config.mk (30 # 1))));
            Elapse 1900] World_after_success).
  - vm_compute; reflexivity.
  - exact H.
Defined.

(** ** The colour of the temperature card *)

(** X14. The temperature card is red exactly when the temperature is at
    least 40, yellow exactly when it is below 40 and at least the applied
    threshold, green exactly when it is below both; so with an applied
    threshold of 40 or more it is never yellow, and moving the slider (the
    pending threshold) does not change the colour. *)
Theorem getTempStatusClass_cases (w : World) (value : Q) :
  (getTempStatusClass (app w) = "text-red-500"
     <-> (40 # 1 <= currentTemp (app w))%Q) /\
  (getTempStatusClass (app w) = "text-yellow-500"
     <-> (currentTemp (app w) < 40 # 1)%Q /\
         (applied w <= currentTemp (app w))%Q) /\
  (getTempStatusClass (app w) = "text-green-500"
     <-> (currentTemp (app w) < 40 # 1)%Q /\
         (currentTemp (app w) < applied w)%Q) /\
  ((40 # 1 <= applied w)%Q ->
     getTempStatusClass (app w) <> "text-yellow-500") /\
  getTempStatusClass (app (slider_onChange value w)) = getTempStatusClass (app w).
Proof.
  unfold getTempStatusClass, applied.
  change (threshold (app (slider_onChange value w))) with (threshold (app w)).
  change (currentTemp (app (slider_onChange value w))) with (currentTemp (app w)).
  destruct (Qle_bool (40 # 1) (currentTemp (app w))) eqn:Ehot.
  - apply Qle_bool_iff in Ehot.
    repeat split; try discriminate; try (intros; exact Ehot);
      try (intros [Hlt _]; exfalso; exact (Qlt_not_le _ _ Hlt Ehot)).
  - assert (Hcool : (currentTemp (app w) < 40 # 1)%Q).
    { apply Qnot_le_lt; intro H; apply Qle_bool_iff in H.
      rewrite H in Ehot; discriminate Ehot. }
    destruct (Qle_bool (threshold (app w)) (currentTemp (app w))) eqn:Ewarm.
    + apply Qle_bool_iff in Ewarm.
      repeat split; try discriminate; try assumption;
        try (intro H; exfalso; exact (Qlt_not_le _ _ Hcool H));
        try (intros [_ Hlt]; exfalso; exact (Qlt_not_le _ _ Hlt Ewarm)).
      intros Hth _.
      apply (Qlt_not_le _ _ Hcool), (Qle_trans _ _ _ Hth Ewarm).
    + assert (Hbelow : (currentTemp (app w) < threshold (app w))%Q).
      { apply Qnot_le_lt; intro H; apply Qle_bool_iff in H.
        rewrite H in Ewarm; discriminate Ewarm. }
      repeat split; try discriminate; try assumption;
        try (intro H; exfalso; exact (Qlt_not_le _ _ Hcool H));
        try (intros [_ Hle]; exfalso; exact (Qlt_not_le _ _ Hbelow Hle)).
Qed.

Lemma getTempStatusClass_cases_witness :
  getTempStatusClass (app World_mounted) = "text-green-500" /\
  getTempStatusClass (app (slider_onChange (40 # 1) World_mounted))
    = getTempStatusClass (app World_mounted).
Proof.
  destruct (getTempStatusClass_cases World_mounted (40 # 1))
    as [_ [_ [Hgreen [_ Hslider]]]].
  split; [|exact Hslider].
  apply Hgreen; split; unfold Qlt; simpl; lia.
Defined.

(** ** The Apply button as shown *)

(** X15. In every status the button shows exactly one label. It reads
    "Updating..." exactly when it is disabled, which is exactly when it has
    the greyed, not-allowed class; it reads "Apply" exactly when the status
    is idle. After a click that is accepted it reads "Updating...". *)
Theorem Apply_button_consistent (w : World) :
  (exists label : string,
     Apply_children (status (app w)) = [label] /\
     (label = "Updating..." <-> Apply_disabled w = true) /\
     (label = "Apply" <-> status (app w) = idle)) /\
  (Apply_disabled w = true <->
   Apply_className (status (app w))
     = "w-full py-2 px-4 rounded-md font-medium bg-gray-300 text-gray-500 cursor-not-allowed") /\
  Apply_children (status (app (updateThreshold w))) = ["Updating..."].
Proof.
  unfold Apply_disabled.
  split; [|split; [|reflexivity]].
  - destruct (status (app w)); eexists; (split; [reflexivity|]);
      split; split; intro H; solve [reflexivity | discriminate H].
  - destruct (status (app w)); split; intro H;
      solve [reflexivity | discriminate H].
Qed.

Lemma Apply_button_consistent_witness :
  Apply_children (status (app World_after_success)) = ["Updated!"] /\
  Apply_disabled World_after_success = false /\
  Apply_children (status (app (updateThreshold World_after_success)))
    = ["Updating..."].
Proof.
  destruct (Apply_button_consistent World_after_success) as [_ [_ H]].
  split; [reflexivity|].
  split; [reflexivity | exact H].
Defined.
